(** * A shallow embedding of [app.py]: three concurrent fetch strategies
    (thread pool, process pool, process pool of thread pools) behind a
    FastAPI front end that times each strategy.

    Modelling choices:
    - JSON values as an inductive type (numbers as [Z]).
    - The network is an oracle [net : string -> http_outcome]; the pool task
      with submission index [i] sees the network [w i], so a strategy run
      against [w : nat -> net] is deterministic in [w].
    - Python exceptions and the pool lifecycle are threaded through a small
      writer/error monad [M]: a result (value or exception) and the list of
      observable events (clock reads, pool creation, task runs, pool
      shutdown) in program order.
    - [pickle] is modelled as a stack machine over opcodes (MARK ... LIST,
      MARK ... DICT, STOP), as Python's unpickler is; a callable is pickled
      by reference to its qualified name, which fails under [<locals>]. *)

From Stdlib Require Import String List ZArith Bool Lia.
Set Warnings "-register-all".
Import ListNotations.
Local Open Scope Z_scope.
Local Open Scope string_scope.
Local Open Scope list_scope.

Module App.

(** ** Values *)

Inductive json : Type :=
| JNull
| JBool (b : bool)
| JInt (z : Z)
| JStr (s : string)
| JList (l : list json)
| JDict (kvs : list (string * json)).

(** Induction over JSON values, with hypotheses on the elements of lists
    and dictionaries. *)
Definition json_ind' (P : json -> Prop)
  (HNull : P JNull) (HBool : forall b, P (JBool b)) (HInt : forall z, P (JInt z))
  (HStr : forall s, P (JStr s))
  (HList : forall l, Forall P l -> P (JList l))
  (HDict : forall kvs, Forall (fun kv => P (snd kv)) kvs -> P (JDict kvs)) :
  forall v, P v :=
  fix go (v : json) : P v :=
    match v with
    | JNull => HNull
    | JBool b => HBool b
    | JInt z => HInt z
    | JStr s => HStr s
    | JList l =>
        HList l ((fix gol (l : list json) : Forall P l :=
                    match l with
                    | [] => Forall_nil P
                    | x :: l' => Forall_cons x (go x) (gol l')
                    end) l)
    | JDict kvs =>
        HDict kvs ((fix god (kvs : list (string * json))
                      : Forall (fun kv => P (snd kv)) kvs :=
                      match kvs with
                      | [] => Forall_nil _
                      | (k, x) :: kvs' => Forall_cons (P := fun kv => P (snd kv)) (k, x) (go x) (god kvs')
                      end) kvs)
    end.

(** Exceptions raised along the code paths of [app.py]. *)
Inductive error : Type :=
| TransportError (msg : string)   (** raised by [httpx.get] *)
| DecodeError                     (** raised by [response.json()] *)
| PicklingError (msg : string)    (** raised when a call item cannot be pickled *)
| UnpicklingError.

Inductive result (A : Type) : Type :=
| Ok (a : A)
| Err (e : error).
Arguments Ok {A} a.
Arguments Err {A} e.

(** ** Pickle, as a stack machine *)

Inductive op : Type :=
| NONE | NEWTRUE | NEWFALSE
| LONG (z : Z)
| UNICODE (s : string)
| MARK | LIST | DICT | STOP.

Fixpoint pickle_ops (v : json) : list op :=
  match v with
  | JNull => [NONE]
  | JBool b => [if b then NEWTRUE else NEWFALSE]
  | JInt z => [LONG z]
  | JStr s => [UNICODE s]
  | JList l => MARK :: flat_map pickle_ops l ++ [LIST]
  | JDict kvs =>
      MARK :: flat_map (fun kv => UNICODE (fst kv) :: pickle_ops (snd kv)) kvs ++ [DICT]
  end.

Inductive stack_item : Type :=
| SMark
| SVal (v : json).

(** Pop the values above the topmost mark, bottom-most first. *)
Fixpoint pop_mark (st : list stack_item) (acc : list json)
  : option (list json * list stack_item) :=
  match st with
  | [] => None
  | SMark :: st' => Some (acc, st')
  | SVal v :: st' => pop_mark st' (v :: acc)
  end.

(** Group a flat key, value, key, value, ... sequence into dictionary items. *)
Fixpoint pair_items (l : list json) : option (list (string * json)) :=
  match l with
  | [] => Some []
  | JStr k :: v :: l' =>
      match pair_items l' with
      | Some kvs => Some ((k, v) :: kvs)
      | None => None
      end
  | _ => None
  end.

Fixpoint load_ops (ops : list op) (st : list stack_item) : option json :=
  match ops with
  | [] => None
  | STOP :: _ => match st with [SVal v] => Some v | _ => None end
  | NONE :: ops' => load_ops ops' (SVal JNull :: st)
  | NEWTRUE :: ops' => load_ops ops' (SVal (JBool true) :: st)
  | NEWFALSE :: ops' => load_ops ops' (SVal (JBool false) :: st)
  | LONG z :: ops' => load_ops ops' (SVal (JInt z) :: st)
  | UNICODE s :: ops' => load_ops ops' (SVal (JStr s) :: st)
  | MARK :: ops' => load_ops ops' (SMark :: st)
  | LIST :: ops' =>
      match pop_mark st [] with
      | Some (l, st') => load_ops ops' (SVal (JList l) :: st')
      | None => None
      end
  | DICT :: ops' =>
      match pop_mark st [] with
      | Some (l, st') =>
          match pair_items l with
          | Some kvs => load_ops ops' (SVal (JDict kvs) :: st')
          | None => None
          end
      | None => None
      end
  end.

(** Values that cross a process boundary. *)
Class Pickle (A : Type) := {
  dumps : A -> list op;
  loads : list op -> option A
}.

#[export] Instance pickle_json : Pickle json := {
  dumps v := pickle_ops v ++ [STOP];
  loads ops := load_ops ops []
}.

#[export] Instance pickle_list_json : Pickle (list json) := {
  dumps l := pickle_ops (JList l) ++ [STOP];
  loads ops := match load_ops ops [] with Some (JList l) => Some l | _ => None end
}.

(** ** Effects: exceptions and observable events *)

Inductive pool_kind : Type := ThreadPool | ProcessPool.

Inductive event : Type :=
| Clock                                   (** a [time.time()] read *)
| PoolOpen (k : pool_kind) (max_workers : nat)
| TaskRun (k : pool_kind) (i : nat)       (** task [i] starts in a worker *)
| TaskDone (k : pool_kind) (i : nat)      (** task [i] returns or raises *)
| PoolShutdown (k : pool_kind).           (** [shutdown(wait=True)] *)

Definition M (A : Type) : Type := (result A * list event)%type.

Definition ret {A} (a : A) : M A := (Ok a, []).

Definition bind {A B} (m : M A) (f : A -> M B) : M B :=
  match m with
  | (Ok a, t) => let '(r, t') := f a in (r, t ++ t')
  | (Err e, t) => (Err e, t)
  end.

Notation "x <- m ;; k" := (bind m (fun x => k))
  (at level 61, m at next level, right associativity).

Definition raise {A} (e : error) : M A := (Err e, []).
Definition lift {A} (r : result A) : M A := (r, []).
Definition emit (ev : event) : M unit := (Ok tt, [ev]).

(** [try: body finally: fin], for a [fin] that returns normally. *)
Definition finally {A} (body : M A) (fin : M unit) : M A :=
  let '(r, t) := body in
  let '(r', t') := fin in
  (match r' with Ok _ => r | Err e => Err e end, t ++ t').

(** ** The Fetch Unit *)

(** The text of a response body, classified by whether the JSON decoder of
    [response.json()] accepts it; decoding itself belongs to the library. *)
Inductive content : Type :=
| Parsable (j : json)
| Unparsable (raw : string).

Record response : Type := { status_code : Z; text : content }.

Inductive http_outcome : Type :=
| Failed (msg : string)      (** connection error, timeout, reset *)
| Received (r : response).

Definition net : Type := string -> http_outcome.

(** [httpx.get(url)]: raises only on transport errors, never on status. *)
Definition httpx_get (n : net) (url : string) : result response :=
  match n url with
  | Failed m => Err (TransportError m)
  | Received r => Ok r
  end.

Definition response_json (r : response) : result json :=
  match text r with
  | Parsable j => Ok j
  | Unparsable _ => Err DecodeError
  end.

(** <<
def fetch_data(url):
    response = httpx.get(url)
    return response.json()
>> *)
Definition fetch_data (n : net) (url : string) : M json :=
  response <- lift (httpx_get n url) ;;
  lift (response_json response).

(** ** Executors *)

(** A Python callable; its [call] takes the submission index of the task,
    which selects the network the task observes. *)
Record callable (A B : Type) : Type := {
  qualname : list string;
  call : nat -> A -> M B
}.
Arguments qualname {A B} c.
Arguments call {A B} c.

(** Pickle stores a function by reference to its qualified name; the lookup
    fails on a [<locals>] component (nested functions and lambdas). *)
Definition picklable {A B} (c : callable A B) : bool :=
  negb (existsb (String.eqb "<locals>") (qualname c)).

(** Submit every item, in order; every submitted task runs. With
    [max_workers] equal to the number of items, every future is running by
    the time results are read, so none is left for [map] to cancel. *)
Fixpoint run_tasks {A B} (task : nat -> A -> M B) (i : nat) (xs : list A)
  : list (result B) * list event :=
  match xs with
  | [] => ([], [])
  | x :: xs' =>
      let '(r, t) := task i x in
      let '(rs, ts) := run_tasks task (S i) xs' in
      (r :: rs, t ++ ts)
  end.

(** [list(executor.map(...))]: results are read in submission order and the
    first failed future, in that order, raises. *)
Fixpoint collect {B} (rs : list (result B)) : result (list B) :=
  match rs with
  | [] => Ok []
  | Err e :: _ => Err e
  | Ok b :: rs' =>
      match collect rs' with
      | Ok bs => Ok (b :: bs)
      | Err e => Err e
      end
  end.

Definition executor_map {A B} (task : nat -> A -> M B) (xs : list A) : M (list B) :=
  let '(rs, t) := run_tasks task 0 xs in (collect rs, t).

Definition thread_task {A B} (c : callable A B) (i : nat) (x : A) : M B :=
  _ <- emit (TaskRun ThreadPool i) ;;
  finally (call c i x) (emit (TaskDone ThreadPool i)).

(** The result travels back pickled; an exception raised in the worker is
    re-raised in the parent. *)
Definition transfer {B} `{Pickle B} (b : B) : M B :=
  match loads (dumps b) with
  | Some b' => ret b'
  | None => raise UnpicklingError
  end.

Definition process_task {A B} `{Pickle B} (c : callable A B) (i : nat) (x : A) : M B :=
  if picklable c then
    _ <- emit (TaskRun ProcessPool i) ;;
    b <- finally (call c i x) (emit (TaskDone ProcessPool i)) ;;
    transfer b
  else raise (PicklingError "Can't pickle local object").

(** [with Executor(max_workers=n) as executor: body]; [__exit__] calls
    [shutdown(wait=True)] whether or not [body] raised. *)
Definition with_pool {A} (k : pool_kind) (n : nat) (body : M A) : M A :=
  _ <- emit (PoolOpen k n) ;;
  finally body (emit (PoolShutdown k)).

(** ** The strategies *)

Definition URL : string := "https://jsonplaceholder.typicode.com/posts/1".
Definition NUM_REQUESTS : nat := 5.

Definition fetch_data_fn (w : nat -> net) : callable string json :=
  {| qualname := ["fetch_data"]; call := fun i url => fetch_data (w i) url |}.

(** <<
def threading_fetch():
    with ThreadPoolExecutor(max_workers=NUM_REQUESTS) as executor:
        results = list(executor.map(fetch_data, [URL] * NUM_REQUESTS))
    return results
>> *)
Definition threading_fetch (w : nat -> net) : M (list json) :=
  with_pool ThreadPool NUM_REQUESTS
    (executor_map (thread_task (fetch_data_fn w)) (repeat URL NUM_REQUESTS)).

Definition multiprocessing_fetch (w : nat -> net) : M (list json) :=
  with_pool ProcessPool NUM_REQUESTS
    (executor_map (process_task (fetch_data_fn w)) (repeat URL NUM_REQUESTS)).

(** [lambda _: threading_fetch()], defined inside [hybrid_fetch]; outer task
    [j] runs its inner thread pool against the network [hw j]. *)
Definition hybrid_lambda (hw : nat -> nat -> net) : callable nat (list json) :=
  {| qualname := ["hybrid_fetch"; "<locals>"; "<lambda>"];
     call := fun j _ => threading_fetch (hw j) |}.

(** The body of [hybrid_fetch] for the callable it submits. *)
Definition hybrid_pool (c : callable nat (list json)) : M (list (list json)) :=
  with_pool ProcessPool 2 (executor_map (process_task c) (seq 0 2)).

(** <<
def hybrid_fetch():
    ...
    with ProcessPoolExecutor(max_workers=2) as proc_executor:
        results = list(proc_executor.map(lambda _: threading_fetch(), range(2)))
    return results
>> *)
Definition hybrid_fetch (hw : nat -> nat -> net) : M (list (list json)) :=
  hybrid_pool (hybrid_lambda hw).

(** The same outer task submitted under another qualified name. *)
Definition renamed {A B} (qn : list string) (c : callable A B) : callable A B :=
  {| qualname := qn; call := call c |}.

(** ** Routes *)

Record envelope (A : Type) : Type := { execution_time : Z; results : A }.
Arguments execution_time {A} e.
Arguments results {A} e.

(** [time.time()]: the [k]-th wall-clock reading of the route is [clk k]. *)
Definition time_time (clk : nat -> Z) (k : nat) : M Z := (Ok (clk k), [Clock]).

Definition timed {A} (clk : nat -> Z) (strategy : M A) : M (envelope A) :=
  start_time <- time_time clk 0 ;;
  rs <- strategy ;;
  end_time <- time_time clk 1 ;;
  ret {| execution_time := end_time - start_time; results := rs |}.

Definition threading_route (clk : nat -> Z) (w : nat -> net) := timed clk (threading_fetch w).
Definition multiprocessing_route (clk : nat -> Z) (w : nat -> net) := timed clk (multiprocessing_fetch w).
Definition hybrid_route (clk : nat -> Z) (hw : nat -> nat -> net) := timed clk (hybrid_fetch hw).

Definition health_check : M json := ret (JDict [("status", JStr "healthy")]).

(** ** Sample inputs *)

Definition ok_body : response := {| status_code := 200; text := Parsable (JDict [("id", JInt 1)]) |}.
Definition all_ok : nat -> net := fun _ _ => Received ok_body.
Definition tagged : nat -> net :=
  fun i _ => Received {| status_code := 200; text := Parsable (JDict [("id", JInt (Z.of_nat i))]) |}.

(** The key, value sequence a dictionary is pickled as. *)
Definition key_value (kv : string * json) : list json := [JStr (fst kv); snd kv].

(** No [time.time()] read among these events. *)
Definition no_clock (t : list event) : Prop := ~ In Clock t.

(** What a timed route records after its strategy: the end read, if the
    strategy returned. *)
Definition clock_tail {A} (r : result A) : list event :=
  match r with Ok _ => [Clock] | Err _ => [] end.

(** Positions of the clock reads in a list of events, counted from [p]. *)
Fixpoint clock_positions (p : nat) (t : list event) : list nat :=
  match t with
  | [] => []
  | Clock :: t' => p :: clock_positions (S p) t'
  | _ :: t' => clock_positions (S p) t'
  end.

(** A wall clock that steps back between the two reads of a route. *)
Definition clk_back : nat -> Z := fun k => if Nat.eqb k 0 then 10 else 3.

(** A wall clock reading [0] first and [13] second. *)
Definition clk_fwd : nat -> Z := fun k => if Nat.eqb k 0 then 0 else 13.

Definition one_fails : nat -> net :=
  fun i url => if Nat.eqb i 3 then Failed "connection reset" else all_ok i url.
Definition hybrid_one_fails : nat -> nat -> net :=
  fun j => if Nat.eqb j 0 then one_fails else all_ok.
Definition server_error : net :=
  fun _ => Received {| status_code := 500; text := Parsable (JDict [("detail", JStr "error")]) |}.

Definition two_fail : nat -> net :=
  fun i url =>
    if Nat.eqb i 1 then Failed "timeout"
    else if Nat.eqb i 3 then Received {| status_code := 200; text := Unparsable "<html>" |}
    else all_ok i url.

Example threading_all_ok :
  fst (threading_fetch all_ok) = Ok (repeat (JDict [("id", JInt 1)]) 5).
Proof. reflexivity. Qed.

Example threading_tagged :
  fst (threading_fetch tagged) = Ok (map (fun i => JDict [("id", JInt (Z.of_nat i))]) (seq 0 5)).
Proof. reflexivity. Qed.

Example multiprocessing_tagged :
  fst (multiprocessing_fetch tagged) = fst (threading_fetch tagged).
Proof. reflexivity. Qed.

Example hybrid_all_ok :
  fst (hybrid_fetch (fun _ => all_ok)) = Err (PicklingError "Can't pickle local object").
Proof. reflexivity. Qed.

Example hybrid_renamed_all_ok :
  fst (hybrid_pool (renamed ["hybrid_task"] (hybrid_lambda (fun _ => all_ok))))
  = Ok [repeat (JDict [("id", JInt 1)]) 5; repeat (JDict [("id", JInt 1)]) 5].
Proof. reflexivity. Qed.

(** ** Pickle round trip *)

Lemma pop_mark_vals (l : list json) (st : list stack_item) (acc : list json) :
  pop_mark (map SVal l ++ SMark :: st) acc = Some (rev l ++ acc, st).
Proof.
  revert acc; induction l as [|v l IH]; intros acc; [reflexivity|].
  simpl. rewrite IH. rewrite <- app_assoc. reflexivity.
Qed.

Lemma pop_mark_rev (l : list json) (st : list stack_item) :
  pop_mark (map SVal (rev l) ++ SMark :: st) [] = Some (l, st).
Proof. rewrite pop_mark_vals, rev_involutive, app_nil_r. reflexivity. Qed.

Lemma pair_items_flat (kvs : list (string * json)) :
  pair_items (flat_map key_value kvs) = Some kvs.
Proof.
  induction kvs as [|[k v] kvs IH]; [reflexivity|].
  simpl. rewrite IH. reflexivity.
Qed.

Lemma load_flat_list (l : list json) (ops : list op) (st : list stack_item) :
  Forall (fun v => forall ops st, load_ops (pickle_ops v ++ ops) st = load_ops ops (SVal v :: st)) l ->
  load_ops (flat_map pickle_ops l ++ ops) st = load_ops ops (map SVal (rev l) ++ st).
Proof.
  intros Hl; revert st; induction Hl as [|v l Hv _ IH]; intros st; [reflexivity|].
  simpl. rewrite <- app_assoc, Hv, IH.
  rewrite map_app, <- app_assoc. reflexivity.
Qed.

Lemma load_flat_dict (kvs : list (string * json)) (ops : list op) (st : list stack_item) :
  Forall (fun kv => forall ops st,
            load_ops (pickle_ops (snd kv) ++ ops) st = load_ops ops (SVal (snd kv) :: st)) kvs ->
  load_ops (flat_map (fun kv => UNICODE (fst kv) :: pickle_ops (snd kv)) kvs ++ ops) st
  = load_ops ops (map SVal (rev (flat_map key_value kvs)) ++ st).
Proof.
  intros Hkvs; revert st; induction Hkvs as [|[k v] kvs Hv _ IH]; intros st; [reflexivity|].
  simpl in *. rewrite <- app_assoc, Hv, IH.
  rewrite !map_app, <- !app_assoc. reflexivity.
Qed.

Lemma load_pickle_ops (v : json) (ops : list op) (st : list stack_item) :
  load_ops (pickle_ops v ++ ops) st = load_ops ops (SVal v :: st).
Proof.
  revert ops st; induction v as [| b | z | s | l IH | kvs IH] using json_ind';
    intros ops st; try reflexivity.
  - destruct b; reflexivity.
  - simpl. rewrite <- app_assoc, load_flat_list by exact IH.
    simpl. rewrite pop_mark_rev. reflexivity.
  - simpl. rewrite <- app_assoc, load_flat_dict by exact IH.
    simpl. rewrite pop_mark_rev, pair_items_flat. reflexivity.
Qed.

Lemma loads_dumps_json (v : json) : loads (dumps v) = Some v.
Proof. simpl. rewrite load_pickle_ops. reflexivity. Qed.

Lemma loads_dumps_list (l : list json) : loads (dumps l) = Some l.
Proof. unfold loads, dumps, pickle_list_json. rewrite load_pickle_ops. reflexivity. Qed.

(** ** Executors: results *)

Lemma fst_with_pool {A} (k : pool_kind) (n : nat) (body : M A) :
  fst (with_pool k n body) = fst body.
Proof. unfold with_pool, bind, finally, emit. destruct body; reflexivity. Qed.

Lemma snd_with_pool {A} (k : pool_kind) (n : nat) (body : M A) :
  snd (with_pool k n body) = PoolOpen k n :: snd body ++ [PoolShutdown k].
Proof. unfold with_pool, bind, finally, emit. destruct body; reflexivity. Qed.

Lemma run_tasks_cons {A B} (task : nat -> A -> M B) (i : nat) (x : A) (xs : list A) :
  run_tasks task i (x :: xs)
  = (fst (task i x) :: fst (run_tasks task (S i) xs),
     snd (task i x) ++ snd (run_tasks task (S i) xs)).
Proof.
  simpl. destruct (task i x), (run_tasks task (S i) xs). reflexivity.
Qed.

Lemma fst_executor_map {A B} (task : nat -> A -> M B) (xs : list A) :
  fst (executor_map task xs) = collect (fst (run_tasks task 0 xs)).
Proof. unfold executor_map. destruct (run_tasks task 0 xs). reflexivity. Qed.

Lemma snd_executor_map {A B} (task : nat -> A -> M B) (xs : list A) :
  snd (executor_map task xs) = snd (run_tasks task 0 xs).
Proof. unfold executor_map. destruct (run_tasks task 0 xs). reflexivity. Qed.

Lemma fst_run_tasks_ext {A B} (t1 t2 : nat -> A -> M B) (xs : list A) (i : nat) :
  (forall k x, fst (t1 k x) = fst (t2 k x)) ->
  fst (run_tasks t1 i xs) = fst (run_tasks t2 i xs).
Proof.
  intros H; revert i; induction xs as [|x xs IH]; intros i; [reflexivity|].
  rewrite !run_tasks_cons. simpl. rewrite H, IH. reflexivity.
Qed.

Lemma collect_map_Ok {B} (bs : list B) : collect (map Ok bs) = Ok bs.
Proof. induction bs as [|b bs IH]; simpl; [|rewrite IH]; reflexivity. Qed.

Lemma collect_Ok {B} (rs : list (result B)) (bs : list B) :
  collect rs = Ok bs <-> rs = map Ok bs.
Proof.
  split; [|intros ->; apply collect_map_Ok].
  revert bs; induction rs as [|[b|e] rs IH]; intros bs H; simpl in H.
  - inversion H; reflexivity.
  - destruct (collect rs) as [bs'|e] eqn:E; inversion H; subst.
    simpl. f_equal. apply IH. reflexivity.
  - discriminate.
Qed.

(** A successful [list(executor.map(...))] has one result per submitted
    item, the [k]-th being the result of the [k]-th task. *)
Lemma run_tasks_ok {A B} (task : nat -> A -> M B) (xs : list A) (i0 : nat) (bs : list B) :
  collect (fst (run_tasks task i0 xs)) = Ok bs ->
  length bs = length xs /\
  forall k x, nth_error xs k = Some x ->
    exists b, nth_error bs k = Some b /\ fst (task (i0 + k)%nat x) = Ok b.
Proof.
  rewrite collect_Ok. revert i0 bs; induction xs as [|x xs IH]; intros i0 bs H.
  - destruct bs; [|discriminate]. split; [reflexivity|]. intros [|k] y Hy; discriminate.
  - rewrite run_tasks_cons in H. simpl in H.
    destruct bs as [|b bs]; [discriminate|]. simpl in H. inversion H as [[Hb Hbs]].
    destruct (IH (S i0) bs Hbs) as [Hlen Hnth].
    split; [simpl; congruence|].
    intros [|k] y Hy; simpl in Hy.
    + inversion Hy; subst. exists b. rewrite Nat.add_0_r. auto.
    + destruct (Hnth k y Hy) as [b' [Hb' Ht]]. exists b'. split; [exact Hb'|].
      rewrite Nat.add_succ_r. exact Ht.
Qed.

Lemma run_tasks_all_ok {A B} (task : nat -> A -> M B) (xs : list A) (i : nat) :
  (forall k x, In x xs -> exists b, fst (task k x) = Ok b) ->
  exists bs, collect (fst (run_tasks task i xs)) = Ok bs /\ length bs = length xs.
Proof.
  revert i; induction xs as [|x xs IH]; intros i H; [exists []; auto|].
  rewrite run_tasks_cons. simpl. destruct (H i x (or_introl eq_refl)) as [b Hb]. rewrite Hb.
  destruct (IH (S i)) as [bs [Hbs Hlen]].
  - intros k y Hy. apply H. right. exact Hy.
  - rewrite Hbs. exists (b :: bs). simpl. auto.
Qed.

Lemma fst_thread_task {A B} (c : callable A B) (i : nat) (x : A) :
  fst (thread_task c i x) = fst (call c i x).
Proof. unfold thread_task, bind, emit, finally. destruct (call c i x); reflexivity. Qed.

Lemma fst_process_task {A B} `{Pickle B} (c : callable A B) (i : nat) (x : A) :
  picklable c = true -> (forall b : B, loads (dumps b) = Some b) ->
  fst (process_task c i x) = fst (call c i x).
Proof.
  intros Hp Hrt. unfold process_task. rewrite Hp. unfold bind, emit, finally.
  destruct (call c i x) as [[b|e] t]; [|reflexivity].
  unfold transfer. rewrite Hrt. reflexivity.
Qed.

Lemma process_task_local {A B} `{Pickle B} (c : callable A B) (i : nat) (x : A) :
  picklable c = false ->
  process_task c i x = raise (PicklingError "Can't pickle local object").
Proof. intros Hp. unfold process_task. rewrite Hp. reflexivity. Qed.

Lemma fst_fetch_data_fn (w : nat -> net) (i : nat) (url : string) :
  fst (call (fetch_data_fn w) i url) = fst (fetch_data (w i) url).
Proof. reflexivity. Qed.

(** Crossing the process boundary leaves the flat strategies' results
    unchanged. *)
Lemma multiprocessing_threading_results (w : nat -> net) :
  fst (multiprocessing_fetch w) = fst (threading_fetch w).
Proof.
  unfold multiprocessing_fetch, threading_fetch.
  rewrite !fst_with_pool, !fst_executor_map. f_equal.
  apply fst_run_tasks_ext. intros k x.
  rewrite fst_thread_task, fst_process_task; [reflexivity | reflexivity | exact loads_dumps_json].
Qed.

Lemma threading_fetch_ok (w : nat -> net) (rs : list json) :
  fst (threading_fetch w) = Ok rs ->
  length rs = NUM_REQUESTS /\
  forall i, (i < NUM_REQUESTS)%nat ->
    exists j, nth_error rs i = Some j /\ fst (fetch_data (w i) URL) = Ok j.
Proof.
  unfold threading_fetch. rewrite fst_with_pool, fst_executor_map.
  intros H. apply run_tasks_ok in H. destruct H as [Hlen Hnth].
  rewrite repeat_length in Hlen. split; [exact Hlen|].
  intros i Hi. destruct (Hnth i URL) as [j [Hj Hf]].
  - apply nth_error_repeat. exact Hi.
  - exists j. split; [exact Hj|]. rewrite fst_thread_task in Hf. exact Hf.
Qed.

Lemma hybrid_pool_ok (qn : list string) (hw : nat -> nat -> net) (rs : list (list json)) :
  fst (hybrid_pool (renamed qn (hybrid_lambda hw))) = Ok rs ->
  length rs = 2%nat /\
  forall j, (j < 2)%nat ->
    exists inner, nth_error rs j = Some inner /\ fst (threading_fetch (hw j)) = Ok inner.
Proof.
  unfold hybrid_pool. rewrite fst_with_pool, fst_executor_map.
  intros H. apply run_tasks_ok in H. destruct H as [Hlen Hnth].
  rewrite length_seq in Hlen. split; [exact Hlen|].
  intros j Hj. destruct (Hnth j j) as [inner [Hin Ht]].
  - rewrite nth_error_seq. apply Nat.ltb_lt in Hj. rewrite Hj. reflexivity.
  - exists inner. split; [exact Hin|]. simpl in Ht.
    destruct (picklable (renamed qn (hybrid_lambda hw))) eqn:Hp.
    + rewrite fst_process_task in Ht by (exact Hp || exact loads_dumps_list). exact Ht.
    + rewrite process_task_local in Ht by exact Hp. discriminate.
Qed.

(** ** Events: no clock read happens inside a strategy *)

Create HintDb quiet.

Lemma no_clock_nil : no_clock [].
Proof. intros []. Qed.

Lemma no_clock_cons (ev : event) (t : list event) :
  ev <> Clock -> no_clock t -> no_clock (ev :: t).
Proof. intros Hev Ht [H|H]; [congruence | exact (Ht H)]. Qed.

Lemma no_clock_app (t1 t2 : list event) :
  no_clock t1 -> no_clock t2 -> no_clock (t1 ++ t2).
Proof. unfold no_clock. intros H1 H2 H. apply in_app_or in H. tauto. Qed.

Lemma task_run_not_clock (k : pool_kind) (i : nat) : TaskRun k i <> Clock.
Proof. discriminate. Qed.

Lemma task_done_not_clock (k : pool_kind) (i : nat) : TaskDone k i <> Clock.
Proof. discriminate. Qed.

Lemma pool_open_not_clock (k : pool_kind) (n : nat) : PoolOpen k n <> Clock.
Proof. discriminate. Qed.

Lemma pool_shutdown_not_clock (k : pool_kind) : PoolShutdown k <> Clock.
Proof. discriminate. Qed.

#[local] Hint Resolve no_clock_nil no_clock_cons no_clock_app task_run_not_clock task_done_not_clock
  pool_open_not_clock pool_shutdown_not_clock : quiet.

Lemma quiet_fetch_data (n : net) (url : string) : no_clock (snd (fetch_data n url)).
Proof.
  unfold fetch_data, bind, lift, httpx_get. destruct (n url); [apply no_clock_nil|].
  simpl. apply no_clock_nil.
Qed.

Lemma quiet_thread_task {A B} (c : callable A B) (i : nat) (x : A) :
  no_clock (snd (call c i x)) -> no_clock (snd (thread_task c i x)).
Proof.
  unfold thread_task, bind, emit, finally. destruct (call c i x). simpl. auto with quiet.
Qed.

Lemma quiet_process_task {A B} `{Pickle B} (c : callable A B) (i : nat) (x : A) :
  no_clock (snd (call c i x)) -> no_clock (snd (process_task c i x)).
Proof.
  intros Hc. unfold process_task. destruct (picklable c); [|apply no_clock_nil].
  unfold bind, emit, finally. destruct (call c i x) as [[b|e] t]; simpl in *.
  - unfold transfer. destruct (loads (dumps b)); simpl; auto with quiet.
  - auto with quiet.
Qed.

Lemma quiet_run_tasks {A B} (task : nat -> A -> M B) (xs : list A) (i : nat) :
  (forall k x, no_clock (snd (task k x))) -> no_clock (snd (run_tasks task i xs)).
Proof.
  intros H; revert i; induction xs as [|x xs IH]; intros i; [apply no_clock_nil|].
  rewrite run_tasks_cons. simpl. auto with quiet.
Qed.

Lemma quiet_executor_map {A B} (task : nat -> A -> M B) (xs : list A) :
  (forall k x, no_clock (snd (task k x))) -> no_clock (snd (executor_map task xs)).
Proof. intros H. rewrite snd_executor_map. apply quiet_run_tasks. exact H. Qed.

Lemma quiet_with_pool {A} (k : pool_kind) (n : nat) (body : M A) :
  no_clock (snd body) -> no_clock (snd (with_pool k n body)).
Proof. intros H. rewrite snd_with_pool. auto with quiet. Qed.

#[local] Hint Resolve quiet_fetch_data quiet_thread_task quiet_process_task
  quiet_executor_map quiet_with_pool : quiet.

Lemma quiet_threading_fetch (w : nat -> net) : no_clock (snd (threading_fetch w)).
Proof.
  unfold threading_fetch. apply quiet_with_pool, quiet_executor_map.
  intros k x. apply quiet_thread_task, quiet_fetch_data.
Qed.

Lemma quiet_multiprocessing_fetch (w : nat -> net) : no_clock (snd (multiprocessing_fetch w)).
Proof.
  unfold multiprocessing_fetch. apply quiet_with_pool, quiet_executor_map.
  intros k x. apply quiet_process_task, quiet_fetch_data.
Qed.

Lemma quiet_hybrid_pool (hw : nat -> nat -> net) (qn : list string) :
  no_clock (snd (hybrid_pool (renamed qn (hybrid_lambda hw)))).
Proof.
  unfold hybrid_pool. apply quiet_with_pool, quiet_executor_map.
  intros k x. apply quiet_process_task, quiet_threading_fetch.
Qed.

(** ** Timed invocation *)

Lemma snd_timed {A} (clk : nat -> Z) (m : M A) :
  snd (timed clk m) = Clock :: snd m ++ clock_tail (fst m).
Proof.
  unfold timed, bind, time_time, ret. destruct m as [[a|e] t]; simpl.
  - reflexivity.
  - rewrite app_nil_r. reflexivity.
Qed.

Lemma fst_timed {A} (clk : nat -> Z) (m : M A) :
  fst (timed clk m)
  = match fst m with
    | Ok rs => Ok {| execution_time := clk 1%nat - clk 0%nat; results := rs |}
    | Err e => Err e
    end.
Proof. unfold timed, bind, time_time, ret. destruct m as [[a|e] t]; reflexivity. Qed.

(** The events of a timed strategy that runs one pool around its body. *)
Lemma timed_with_pool_events {A} (clk : nat -> Z) (k : pool_kind) (n : nat) (body : M A) :
  snd (timed clk (with_pool k n body))
  = Clock :: PoolOpen k n :: snd body ++ PoolShutdown k :: clock_tail (fst body).
Proof.
  rewrite snd_timed, snd_with_pool, fst_with_pool. simpl.
  rewrite <- app_assoc. reflexivity.
Qed.

(** ** A single failing unit in a flat strategy *)

Lemma collect_single_err {B} (rs : list (result B)) (k : nat) (e : error) :
  nth_error rs k = Some (Err e) ->
  (forall n r, n <> k -> nth_error rs n = Some r -> exists b, r = Ok b) ->
  collect rs = Err e.
Proof.
  revert k; induction rs as [|r rs IH]; intros k Hk Hothers; [destruct k; discriminate|].
  destruct k as [|k]; simpl in Hk.
  - inversion Hk; subst. reflexivity.
  - destruct (Hothers 0%nat r ltac:(discriminate) eq_refl) as [b ->]. simpl.
    rewrite (IH k Hk); [reflexivity|].
    intros n r' Hn Hr'. apply (Hothers (S n) r'); [congruence | exact Hr'].
Qed.

Lemma nth_error_fst_run_tasks {A B} (task : nat -> A -> M B) (xs : list A) (i n : nat) :
  nth_error (fst (run_tasks task i xs)) n
  = option_map (fun x => fst (task (i + n)%nat x)) (nth_error xs n).
Proof.
  revert i n; induction xs as [|x xs IH]; intros i n; [destruct n; reflexivity|].
  rewrite run_tasks_cons. destruct n as [|n]; simpl.
  - rewrite Nat.add_0_r. reflexivity.
  - rewrite IH, Nat.add_succ_r. reflexivity.
Qed.

(** In the flat strategies, a single failing unit fails the invocation
    with that unit's exception. *)
Lemma flat_single_failure (w : nat -> net) (k : nat) (e : error) :
  (k < NUM_REQUESTS)%nat ->
  fst (fetch_data (w k) URL) = Err e ->
  (forall i, i <> k -> exists j, fst (fetch_data (w i) URL) = Ok j) ->
  fst (threading_fetch w) = Err e /\ fst (multiprocessing_fetch w) = Err e.
Proof.
  intros Hk He Hothers.
  assert (Ht : fst (threading_fetch w) = Err e).
  { unfold threading_fetch. rewrite fst_with_pool, fst_executor_map.
    apply collect_single_err with (k := k).
    - rewrite nth_error_fst_run_tasks, nth_error_repeat by exact Hk. simpl.
      rewrite fst_thread_task. simpl. rewrite He. reflexivity.
    - intros n r Hn Hr. rewrite nth_error_fst_run_tasks in Hr.
      destruct (nth_error (repeat URL NUM_REQUESTS) n) as [x|] eqn:Hx; [|discriminate].
      simpl in Hr. inversion Hr; subst.
      apply nth_error_In, repeat_spec in Hx. subst x.
      rewrite fst_thread_task. apply Hothers. exact Hn. }
  split; [exact Ht|]. rewrite multiprocessing_threading_results. exact Ht.
Qed.

(** ** Claims *)

(** C1 (failing input). Every unit of both inner pools would succeed, yet
    [hybrid_fetch] raises the pickling error of its lambda and returns no
    Result Set, flattened or not. *)
Theorem hybrid_all_ok_raises :
  (forall j i, fst (fetch_data ((fun _ : nat => all_ok) j i) URL) = Ok (JDict [("id", JInt 1)])) /\
  fst (hybrid_fetch (fun _ => all_ok)) = Err (PicklingError "Can't pickle local object") /\
  ~ (exists rs, fst (hybrid_fetch (fun _ => all_ok)) = Ok rs).
Proof.
  split; [intros j i; reflexivity|]. split; [reflexivity|].
  intros [rs H]. discriminate H.
Qed.

(** C2 (failing input). Unit 3 of a flat strategy, or unit 3 of the first
    inner pool of the hybrid, fails with a transport error and every other
    unit succeeds: the flat strategies raise that error, while the hybrid
    raises a pickling error for its lambda, before any unit runs. *)
Theorem one_failure_propagation :
  fst (threading_fetch one_fails) = Err (TransportError "connection reset") /\
  fst (multiprocessing_fetch one_fails) = Err (TransportError "connection reset") /\
  fst (hybrid_fetch hybrid_one_fails) = Err (PicklingError "Can't pickle local object").
Proof. repeat split; reflexivity. Qed.

(** C3. With a Fetch Unit that always succeeds, the Thread-Pool and the
    Process-Pool Strategies return a Result Set of length 5. *)
Theorem flat_strategies_length (w : nat -> net)
  (Hok : forall i, exists j, fst (fetch_data (w i) URL) = Ok j) :
  (exists rs, fst (threading_fetch w) = Ok rs /\ length rs = NUM_REQUESTS) /\
  (exists rs, fst (multiprocessing_fetch w) = Ok rs /\ length rs = NUM_REQUESTS).
Proof.
  assert (Ht : exists rs, fst (threading_fetch w) = Ok rs /\ length rs = NUM_REQUESTS).
  { unfold threading_fetch. rewrite fst_with_pool, fst_executor_map.
    destruct (run_tasks_all_ok (thread_task (fetch_data_fn w)) (repeat URL NUM_REQUESTS) 0)
      as [rs [Hrs Hlen]].
    - intros k x Hx. apply repeat_spec in Hx. subst x.
      rewrite fst_thread_task. apply Hok.
    - exists rs. rewrite repeat_length in Hlen. auto. }
  split; [exact Ht|]. rewrite multiprocessing_threading_results. exact Ht.
Qed.

Lemma flat_strategies_length_witness :
  (forall i, exists j, fst (fetch_data (all_ok i) URL) = Ok j) /\
  (exists rs, fst (threading_fetch all_ok) = Ok rs /\ length rs = NUM_REQUESTS) /\
  (exists rs, fst (multiprocessing_fetch all_ok) = Ok rs /\ length rs = NUM_REQUESTS).
Proof.
  assert (Hok : forall i, exists j, fst (fetch_data (all_ok i) URL) = Ok j)
    by (intros i; eexists; reflexivity).
  split; [exact Hok|]. exact (flat_strategies_length all_ok Hok).
Defined.

(** C4. A successful invocation returns its results in submission order:
    element [i] of a flat Result Set is the result of the [i]-th submitted
    unit; in the hybrid (for any name of the submitted task), element [i] of
    inner Result Set [j] is the result of unit [i] of outer task [j]. *)
Theorem submission_order (w : nat -> net) (hw : nat -> nat -> net) (qn : list string) :
  (forall rs, fst (threading_fetch w) = Ok rs ->
     forall i, (i < NUM_REQUESTS)%nat ->
       exists j, nth_error rs i = Some j /\ fst (fetch_data (w i) URL) = Ok j) /\
  (forall rs, fst (multiprocessing_fetch w) = Ok rs ->
     forall i, (i < NUM_REQUESTS)%nat ->
       exists j, nth_error rs i = Some j /\ fst (fetch_data (w i) URL) = Ok j) /\
  (forall rs, fst (hybrid_pool (renamed qn (hybrid_lambda hw))) = Ok rs ->
     forall j i, (j < 2)%nat -> (i < NUM_REQUESTS)%nat ->
       exists inner b, nth_error rs j = Some inner /\ nth_error inner i = Some b /\
                       fst (fetch_data (hw j i) URL) = Ok b).
Proof.
  split; [|split].
  - intros rs H. exact (proj2 (threading_fetch_ok w rs H)).
  - intros rs H. rewrite multiprocessing_threading_results in H.
    exact (proj2 (threading_fetch_ok w rs H)).
  - intros rs H j i Hj Hi.
    destruct (proj2 (hybrid_pool_ok qn hw rs H) j Hj) as [inner [Hin Hinner]].
    destruct (proj2 (threading_fetch_ok _ _ Hinner) i Hi) as [b [Hb Hf]].
    exists inner, b. auto.
Qed.

Lemma submission_order_witness :
  fst (threading_fetch tagged) = Ok (map (fun i => JDict [("id", JInt (Z.of_nat i))]) (seq 0 5)) /\
  exists j, nth_error (map (fun i => JDict [("id", JInt (Z.of_nat i))]) (seq 0 5)) 3 = Some j /\
            fst (fetch_data (tagged 3%nat) URL) = Ok j.
Proof.
  split; [reflexivity|].
  apply (proj1 (submission_order tagged (fun _ => tagged) ["hybrid_task"])).
  - reflexivity.
  - unfold NUM_REQUESTS. lia.
Defined.

(** C5. For every network, the Process-Pool Strategy returns what the
    Thread-Pool Strategy returns, and a JSON value crossing the process
    boundary (pickled, then unpickled) is unchanged. *)
Theorem process_pool_same_contract :
  (forall w : nat -> net, fst (multiprocessing_fetch w) = fst (threading_fetch w)) /\
  (forall v : json, loads (dumps v) = Some v).
Proof.
  split; [exact multiprocessing_threading_results | exact loads_dumps_json].
Qed.

(** C7. Each route reads the clock first, then opens its pool; the strategy
    runs with no clock read in between; the pool shuts down; and, if the
    strategy returned, the clock is read last. The reported duration is the
    difference of these two reads. *)
Theorem timing_brackets_pool (clk : nat -> Z) (w : nat -> net) (hw : nat -> nat -> net) :
  (exists mid,
     snd (threading_route clk w)
     = Clock :: PoolOpen ThreadPool NUM_REQUESTS :: mid ++
       PoolShutdown ThreadPool :: clock_tail (fst (threading_route clk w)) /\ no_clock mid) /\
  (exists mid,
     snd (multiprocessing_route clk w)
     = Clock :: PoolOpen ProcessPool NUM_REQUESTS :: mid ++
       PoolShutdown ProcessPool :: clock_tail (fst (multiprocessing_route clk w)) /\ no_clock mid) /\
  (exists mid,
     snd (hybrid_route clk hw)
     = Clock :: PoolOpen ProcessPool 2 :: mid ++
       PoolShutdown ProcessPool :: clock_tail (fst (hybrid_route clk hw)) /\ no_clock mid) /\
  (forall env, fst (threading_route clk w) = Ok env -> execution_time env = clk 1%nat - clk 0%nat) /\
  (forall env, fst (multiprocessing_route clk w) = Ok env -> execution_time env = clk 1%nat - clk 0%nat) /\
  (forall env, fst (hybrid_route clk hw) = Ok env -> execution_time env = clk 1%nat - clk 0%nat).
Proof.
  assert (Htail : forall A (m : M A), clock_tail (fst (timed clk m)) = clock_tail (fst m)).
  { intros A m. rewrite fst_timed. destruct (fst m); reflexivity. }
  assert (Hdur : forall A (m : M A) env,
             fst (timed clk m) = Ok env -> execution_time env = clk 1%nat - clk 0%nat).
  { intros A m env H. rewrite fst_timed in H.
    destruct (fst m); inversion H; reflexivity. }
  unfold threading_route, multiprocessing_route, hybrid_route.
  rewrite !Htail.
  repeat split; try apply Hdur.
  - unfold threading_fetch. rewrite timed_with_pool_events, fst_with_pool.
    eexists. split; [reflexivity|].
    rewrite snd_executor_map. apply quiet_run_tasks.
    intros k x. apply quiet_thread_task, quiet_fetch_data.
  - unfold multiprocessing_fetch. rewrite timed_with_pool_events, fst_with_pool.
    eexists. split; [reflexivity|].
    rewrite snd_executor_map. apply quiet_run_tasks.
    intros k x. apply quiet_process_task, quiet_fetch_data.
  - unfold hybrid_fetch, hybrid_pool. rewrite timed_with_pool_events, fst_with_pool.
    eexists. split; [reflexivity|].
    rewrite snd_executor_map. apply quiet_run_tasks.
    intros k x. apply quiet_process_task, quiet_threading_fetch.
Qed.

Lemma timing_brackets_pool_witness :
  fst (threading_route (fun k => Z.of_nat k * 3) all_ok)
    = Ok {| execution_time := 3; results := repeat (JDict [("id", JInt 1)]) 5 |} /\
  execution_time {| execution_time := 3; results := repeat (JDict [("id", JInt 1)]) 5 |} = 3 - 0.
Proof.
  split; [reflexivity|].
  apply (proj1 (proj2 (proj2 (proj2 (timing_brackets_pool
           (fun k => Z.of_nat k * 3) all_ok (fun _ => all_ok)))))).
  reflexivity.
Defined.

(** C8. [hybrid_fetch] fails on every input, with the pickling error of its
    lambda, and so does the [/hybrid] route. *)
Theorem hybrid_always_fails (clk : nat -> Z) (hw : nat -> nat -> net) :
  fst (hybrid_fetch hw) = Err (PicklingError "Can't pickle local object") /\
  fst (hybrid_route clk hw) = Err (PicklingError "Can't pickle local object").
Proof. split; reflexivity. Qed.

(** C9. A response whose body parses as JSON is returned as a result
    whatever its status code. *)
Theorem fetch_ignores_status (n : net) (url : string) (st : Z) (j : json)
  (Hresp : n url = Received {| status_code := st; text := Parsable j |}) :
  fetch_data n url = (Ok j, []).
Proof. unfold fetch_data, bind, lift, httpx_get. rewrite Hresp. reflexivity. Qed.

Lemma fetch_ignores_status_witness :
  server_error URL = Received {| status_code := 500; text := Parsable (JDict [("detail", JStr "error")]) |} /\
  fetch_data server_error URL = (Ok (JDict [("detail", JStr "error")]), []).
Proof.
  split; [reflexivity|].
  apply (fetch_ignores_status server_error URL 500). reflexivity.
Defined.

(** C10. [GET /health] returns [{"status": "healthy"}] and raises nothing. *)
Theorem health_check_healthy :
  health_check = (Ok (JDict [("status", JStr "healthy")]), []).
Proof. reflexivity. Qed.

(** ** Further properties of the code *)

Lemma collect_Err {B} (rs : list (result B)) (e : error) :
  collect rs = Err e <->
  exists k, nth_error rs k = Some (Err e) /\
            forall i, (i < k)%nat -> exists b, nth_error rs i = Some (Ok b).
Proof.
  split.
  - induction rs as [|[b|e'] rs IH]; simpl; intros H; [discriminate| |].
    + destruct (collect rs) eqn:E; [discriminate|]. inversion H; subst.
      destruct (IH eq_refl) as [k [Hk Hbefore]].
      exists (S k). split; [exact Hk|].
      intros [|i] Hi; [exists b; reflexivity|].
      apply Hbefore. lia.
    + inversion H; subst. exists 0%nat. split; [reflexivity|]. intros i Hi; lia.
  - intros [k [Hk Hbefore]]. revert k Hk Hbefore.
    induction rs as [|r rs IH]; intros k Hk Hbefore; [destruct k; discriminate|].
    destruct k as [|k]; simpl in Hk.
    + inversion Hk; subst. reflexivity.
    + destruct (Hbefore 0%nat ltac:(lia)) as [b Hb]. simpl in Hb. inversion Hb; subst.
      simpl. rewrite (IH k Hk); [reflexivity|].
      intros i Hi. apply (Hbefore (S i)). lia.
Qed.

Lemma threading_nth (w : nat -> net) (n : nat) :
  nth_error (fst (run_tasks (thread_task (fetch_data_fn w)) 0 (repeat URL NUM_REQUESTS))) n
  = if (n <? NUM_REQUESTS)%nat then Some (fst (fetch_data (w n) URL)) else None.
Proof.
  rewrite nth_error_fst_run_tasks.
  destruct (Nat.ltb_spec n NUM_REQUESTS) as [Hn|Hn].
  - rewrite nth_error_repeat by exact Hn. simpl. rewrite fst_thread_task. reflexivity.
  - assert (nth_error (repeat URL NUM_REQUESTS) n = None) as ->
      by (apply nth_error_None; rewrite repeat_length; exact Hn).
    reflexivity.
Qed.

(** The flat strategies fail with exception [e] exactly when some unit [k]
    raised [e] and every unit submitted before it succeeded: the first
    failure in submission order wins, whatever the later units do. *)
Theorem flat_first_failure (w : nat -> net) (e : error) :
  (fst (threading_fetch w) = Err e <->
   exists k, (k < NUM_REQUESTS)%nat /\ fst (fetch_data (w k) URL) = Err e /\
             forall i, (i < k)%nat -> exists j, fst (fetch_data (w i) URL) = Ok j) /\
  (fst (multiprocessing_fetch w) = Err e <->
   exists k, (k < NUM_REQUESTS)%nat /\ fst (fetch_data (w k) URL) = Err e /\
             forall i, (i < k)%nat -> exists j, fst (fetch_data (w i) URL) = Ok j).
Proof.
  assert (Ht : fst (threading_fetch w) = Err e <->
   exists k, (k < NUM_REQUESTS)%nat /\ fst (fetch_data (w k) URL) = Err e /\
             forall i, (i < k)%nat -> exists j, fst (fetch_data (w i) URL) = Ok j).
  { unfold threading_fetch. rewrite fst_with_pool, fst_executor_map, collect_Err.
    split.
    - intros [k [Hk Hbefore]]. rewrite threading_nth in Hk.
      destruct (Nat.ltb_spec k NUM_REQUESTS) as [Hlt|]; [|discriminate].
      injection Hk as Hk'. exists k. split; [exact Hlt|]. split; [exact Hk'|].
      intros i Hi. destruct (Hbefore i Hi) as [b Hb]. rewrite threading_nth in Hb.
      destruct (i <? NUM_REQUESTS)%nat; [|discriminate]. injection Hb as Hb'. exists b. exact Hb'.
    - intros [k [Hk [He Hbefore]]]. exists k. split.
      + rewrite threading_nth. apply Nat.ltb_lt in Hk. rewrite Hk, He. reflexivity.
      + intros i Hi. destruct (Hbefore i Hi) as [j Hj]. exists j.
        rewrite threading_nth. assert (Hi' : (i <? NUM_REQUESTS)%nat = true)
          by (apply Nat.ltb_lt; lia).
        rewrite Hi', Hj. reflexivity. }
  split; [exact Ht|]. rewrite multiprocessing_threading_results. exact Ht.
Qed.

Lemma flat_first_failure_witness :
  fst (threading_fetch two_fail) = Err (TransportError "timeout") /\
  fst (multiprocessing_fetch two_fail) = Err (TransportError "timeout").
Proof.
  assert (Hex : exists k, (k < NUM_REQUESTS)%nat /\
                  fst (fetch_data (two_fail k) URL) = Err (TransportError "timeout") /\
                  forall i, (i < k)%nat -> exists j, fst (fetch_data (two_fail i) URL) = Ok j).
  { exists 1%nat. split; [unfold NUM_REQUESTS; lia|]. split; [reflexivity|].
    intros i Hi. assert (i = 0%nat) as -> by lia. eexists. reflexivity. }
  split.
  - apply (proj2 (proj1 (flat_first_failure two_fail (TransportError "timeout")))). exact Hex.
  - apply (proj2 (proj2 (flat_first_failure two_fail (TransportError "timeout")))). exact Hex.
Defined.

(** [hybrid_fetch] opens and shuts down its process pool and does nothing
    else: no task runs, no inner pool is created and no request is made, so
    its outcome does not depend on the network. *)
Theorem hybrid_fetch_no_request (hw : nat -> nat -> net) :
  hybrid_fetch hw
  = (Err (PicklingError "Can't pickle local object"),
     [PoolOpen ProcessPool 2; PoolShutdown ProcessPool]).
Proof. reflexivity. Qed.

(** ** Durations *)

Lemma clock_positions_no_clock (t r : list event) (p : nat) :
  no_clock t -> clock_positions p (t ++ r) = clock_positions (p + length t) r.
Proof.
  revert p; induction t as [|ev t IH]; intros p Ht; simpl.
  - rewrite Nat.add_0_r. reflexivity.
  - assert (Hev : ev <> Clock) by (intros ->; apply Ht; left; reflexivity).
    assert (Ht' : no_clock t) by (intros H; apply Ht; right; exact H).
    rewrite <- Nat.add_succ_comm.
    destruct ev; try (exfalso; apply Hev; reflexivity); apply IH; exact Ht'.
Qed.

(** A timed strategy that runs one pool: if the [r]-th clock read returns the
    wall time [ts p] of its position [p], and the wall time does not go back
    along the events, then the reported duration is non-negative and covers
    the run of every task. *)
Lemma timed_pool_duration {A} (clk ts : nat -> Z) (k : pool_kind) (n : nat) (body : M A)
  (env : envelope A) :
  no_clock (snd body) ->
  fst (timed clk (with_pool k n body)) = Ok env ->
  (forall r p, nth_error (clock_positions 0 (snd (timed clk (with_pool k n body)))) r = Some p ->
               ts p = clk r) ->
  (forall p q, (p <= q)%nat -> (q < length (snd (timed clk (with_pool k n body))))%nat ->
               ts p <= ts q) ->
  0 <= execution_time env /\
  forall p q k' i, nth_error (snd (timed clk (with_pool k n body))) p = Some (TaskRun k' i) ->
                   nth_error (snd (timed clk (with_pool k n body))) q = Some (TaskDone k' i) ->
                   ts q - ts p <= execution_time env.
Proof.
  intros Hquiet Hok Hclk Hmono.
  rewrite fst_timed, fst_with_pool in Hok.
  destruct (fst body) as [rs|e] eqn:Hb; [|discriminate].
  injection Hok as <-. simpl.
  rewrite timed_with_pool_events, Hb in Hclk, Hmono |- *. simpl clock_tail in *.
  set (L := length (snd body)) in *.
  assert (Hpos : clock_positions 0 (Clock :: PoolOpen k n :: snd body ++ [PoolShutdown k; Clock])
                 = [0%nat; (3 + L)%nat]).
  { simpl. rewrite clock_positions_no_clock by exact Hquiet. simpl.
    do 3 f_equal; unfold L; lia. }
  assert (Hlen : length (Clock :: PoolOpen k n :: snd body ++ [PoolShutdown k; Clock]) = (4 + L)%nat).
  { simpl. rewrite length_app. simpl. unfold L. lia. }
  rewrite Hpos in Hclk. rewrite Hlen in Hmono.
  assert (H0 : ts 0%nat = clk 0%nat) by (apply Hclk; reflexivity).
  assert (H1 : ts (3 + L)%nat = clk 1%nat) by (apply Hclk; reflexivity).
  split.
  - assert (ts 0%nat <= ts (3 + L)%nat) by (apply Hmono; lia). lia.
  - intros p q k' i Hp Hq.
    assert (Hp' : (p < 4 + L)%nat) by (rewrite <- Hlen; apply nth_error_Some; congruence).
    assert (Hq' : (q < 4 + L)%nat) by (rewrite <- Hlen; apply nth_error_Some; congruence).
    assert (ts 0%nat <= ts p) by (apply Hmono; lia).
    assert (ts q <= ts (3 + L)%nat) by (apply Hmono; lia).
    lia.
Qed.

(** C6 (counterexample). [time.time()] is the wall clock: when it steps back
    from 10 to 3 during the invocation, [/threading] reports a negative
    execution time. *)
Lemma execution_time_negative :
  exists env, fst (threading_route clk_back all_ok) = Ok env /\ execution_time env < 0.
Proof. eexists. split; [reflexivity|]. simpl. lia. Qed.

(** C6 (amended). For each route that returns: if each [time.time()] read
    returns the wall time of its position among the events, and the wall
    time does not go back during the invocation, the reported execution
    time is non-negative and at least the time from the start to the end of
    every unit of work. *)
Theorem route_duration_bounds (clk ts : nat -> Z) (w : nat -> net) (hw : nat -> nat -> net) :
  (forall env, fst (threading_route clk w) = Ok env ->
     (forall r p, nth_error (clock_positions 0 (snd (threading_route clk w))) r = Some p -> ts p = clk r) ->
     (forall p q, (p <= q)%nat -> (q < length (snd (threading_route clk w)))%nat -> ts p <= ts q) ->
     0 <= execution_time env /\
     forall p q k i, nth_error (snd (threading_route clk w)) p = Some (TaskRun k i) ->
                     nth_error (snd (threading_route clk w)) q = Some (TaskDone k i) ->
                     ts q - ts p <= execution_time env) /\
  (forall env, fst (multiprocessing_route clk w) = Ok env ->
     (forall r p, nth_error (clock_positions 0 (snd (multiprocessing_route clk w))) r = Some p -> ts p = clk r) ->
     (forall p q, (p <= q)%nat -> (q < length (snd (multiprocessing_route clk w)))%nat -> ts p <= ts q) ->
     0 <= execution_time env /\
     forall p q k i, nth_error (snd (multiprocessing_route clk w)) p = Some (TaskRun k i) ->
                     nth_error (snd (multiprocessing_route clk w)) q = Some (TaskDone k i) ->
                     ts q - ts p <= execution_time env) /\
  (forall env, fst (hybrid_route clk hw) = Ok env ->
     (forall r p, nth_error (clock_positions 0 (snd (hybrid_route clk hw))) r = Some p -> ts p = clk r) ->
     (forall p q, (p <= q)%nat -> (q < length (snd (hybrid_route clk hw)))%nat -> ts p <= ts q) ->
     0 <= execution_time env /\
     forall p q k i, nth_error (snd (hybrid_route clk hw)) p = Some (TaskRun k i) ->
                     nth_error (snd (hybrid_route clk hw)) q = Some (TaskDone k i) ->
                     ts q - ts p <= execution_time env).
Proof.
  split; [|split]; intros env.
  - apply timed_pool_duration. apply quiet_executor_map.
    intros k x. apply quiet_thread_task, quiet_fetch_data.
  - apply timed_pool_duration. apply quiet_executor_map.
    intros k x. apply quiet_process_task, quiet_fetch_data.
  - apply timed_pool_duration. apply quiet_executor_map.
    intros k x. apply quiet_process_task, quiet_threading_fetch.
Qed.

Lemma route_duration_bounds_witness :
  fst (threading_route clk_fwd all_ok)
    = Ok {| execution_time := 13; results := repeat (JDict [("id", JInt 1)]) 5 |} /\
  0 <= execution_time {| execution_time := 13; results := repeat (JDict [("id", JInt 1)]) 5 |} /\
  forall p q k i, nth_error (snd (threading_route clk_fwd all_ok)) p = Some (TaskRun k i) ->
                  nth_error (snd (threading_route clk_fwd all_ok)) q = Some (TaskDone k i) ->
                  Z.of_nat q - Z.of_nat p
                  <= execution_time {| execution_time := 13; results := repeat (JDict [("id", JInt 1)]) 5 |}.
Proof.
  split; [reflexivity|].
  apply (proj1 (route_duration_bounds clk_fwd Z.of_nat all_ok (fun _ => all_ok))).
  - reflexivity.
  - intros r p H. destruct r as [|[|[|r]]]; vm_compute in H; try discriminate;
      inversion H; reflexivity.
  - intros p q Hpq _. lia.
Defined.

End App.
